(** * A contact address book: fields, records and the book

    Shallow embedding of [address_book.py] (and of its split copy under
    [bot/models/]): the validated fields [Name] and [Phone], the
    [Record] of one contact with its phone list, and the [AddressBook]
    keyed by contact name.

    Python values are modelled as follows.
    - A [str] is a sequence of Unicode code points: [list N].
    - An exception is a value of [exn]; a call either returns or raises
      ([outcome]).
    - A method that mutates [self] is a function from the state of
      [self] to an outcome and the state afterwards ([exec]): the
      state reached when an exception is raised is kept, as it is in
      Python.
    - [Record] objects live in a store and are handed around by
      reference; the book's dictionary holds references. *)

From Stdlib Require Import NArith Ascii String.
From stdpp Require Import base option list gmap.

Local Open Scope N_scope.

(** ** Strings *)

Abbreviation pystr := (list N).

(** The [str] written as an ASCII literal in the source. *)
Definition str (s : string) : pystr :=
  map N_of_ascii (list_ascii_of_string s).

(** ** The character class [\d]

    In a [str] pattern compiled without [re.ASCII], [\d] matches every
    Unicode decimal digit (general category Nd).  The ranges below are
    those of Unicode 14.0 (CPython 3.11); later versions add ranges and
    remove none. *)
Definition decimal_ranges : list (N * N) :=
  [ (0x30, 0x39); (0x660, 0x669); (0x6f0, 0x6f9); (0x7c0, 0x7c9);
    (0x966, 0x96f); (0x9e6, 0x9ef); (0xa66, 0xa6f); (0xae6, 0xaef);
    (0xb66, 0xb6f); (0xbe6, 0xbef); (0xc66, 0xc6f); (0xce6, 0xcef);
    (0xd66, 0xd6f); (0xde6, 0xdef); (0xe50, 0xe59); (0xed0, 0xed9);
    (0xf20, 0xf29); (0x1040, 0x1049); (0x1090, 0x1099); (0x17e0, 0x17e9);
    (0x1810, 0x1819); (0x1946, 0x194f); (0x19d0, 0x19d9); (0x1a80, 0x1a89);
    (0x1a90, 0x1a99); (0x1b50, 0x1b59); (0x1bb0, 0x1bb9); (0x1c40, 0x1c49);
    (0x1c50, 0x1c59); (0xa620, 0xa629); (0xa8d0, 0xa8d9); (0xa900, 0xa909);
    (0xa9d0, 0xa9d9); (0xa9f0, 0xa9f9); (0xaa50, 0xaa59); (0xabf0, 0xabf9);
    (0xff10, 0xff19); (0x104a0, 0x104a9); (0x10d30, 0x10d39);
    (0x11066, 0x1106f); (0x110f0, 0x110f9); (0x11136, 0x1113f);
    (0x111d0, 0x111d9); (0x112f0, 0x112f9); (0x11450, 0x11459);
    (0x114d0, 0x114d9); (0x11650, 0x11659); (0x116c0, 0x116c9);
    (0x11730, 0x11739); (0x118e0, 0x118e9); (0x11950, 0x11959);
    (0x11c50, 0x11c59); (0x11d50, 0x11d59); (0x11da0, 0x11da9);
    (0x16a60, 0x16a69); (0x16ac0, 0x16ac9); (0x16b50, 0x16b59);
    (0x1d7ce, 0x1d7ff); (0x1e140, 0x1e149); (0x1e2f0, 0x1e2f9);
    (0x1e950, 0x1e959); (0x1fbf0, 0x1fbf9) ].

Definition in_range (c : N) (r : N * N) : bool :=
  (fst r <=? c) && (c <=? snd r).

Definition is_decimal (c : N) : bool :=
  existsb (in_range c) decimal_ranges.

(** The characters ['0'] to ['9']. *)
Definition is_ascii_digit (c : N) : bool :=
  (0x30 <=? c) && (c <=? 0x39).

(** A character of the ASCII block. *)
Definition is_ascii (c : N) : bool := c <? 0x80.

(** [re.fullmatch(r'\d{n}', s)], as the truth value of its result (a
    match object is true, [None] is false): the whole of [s] is
    consumed by exactly [n] characters of class [\d]. *)
Fixpoint fullmatch_digits (n : nat) (s : pystr) : bool :=
  match n, s with
  | O, [] => true
  | S n', c :: s' => is_decimal c && fullmatch_digits n' s'
  | _, _ => false
  end.

(** ** Exceptions and outcomes *)

Inductive exn : Type :=
  | ValueError (msg : string).

Inductive outcome (A : Type) : Type :=
  | Ok (a : A)
  | Raise (e : exn).
Arguments Ok {A} a.
Arguments Raise {A} e.

Definition raises {A : Type} (o : outcome A) : bool :=
  match o with Ok _ => false | Raise _ => true end.

(** ** Fields *)

(** [class Field]: one attribute, [value]. *)
Record Field : Type := mkField { value : pystr }.

Definition Field_init (v : pystr) : Field := {| value := v |}.

(** [class Name(Field)] and [class Phone(Field)] add no attribute; the
    coercions play the part of inheritance. *)
Record Name : Type := mkName { Name_super :> Field }.
Record Phone : Type := mkPhone { Phone_super :> Field }.

(** [Name.__init__]: [not value] holds of the empty [str] only. *)
Definition Name_init (v : pystr) : outcome Name :=
  if bool_decide (v = [])
  then Raise (ValueError "Name cannot be empty")
  else Ok (mkName (Field_init v)).

(** [Phone.__init__]. *)
Definition Phone_init (v : pystr) : outcome Phone :=
  if negb (fullmatch_digits 10 v)
  then Raise (ValueError "Phone number must be 10 digits")
  else Ok (mkPhone (Field_init v)).

(** ** Methods that mutate [self]

    A method run on an object in state [s] ends with an outcome and
    the object's state at that point.  When a step raises, the rest of
    the body is skipped and the state reached so far is what remains. *)

Definition exec (S A : Type) : Type := S -> outcome A * S.

Section Exec.
Context {S : Type}.

Definition ret {A : Type} (a : A) : exec S A := fun s => (Ok a, s).

Definition bind {A B : Type} (m : exec S A) (k : A -> exec S B) : exec S B :=
  fun s =>
    match m s with
    | (Ok a, s') => k a s'
    | (Raise e, s') => (Raise e, s')
    end.

(** An expression that reads nothing of [self] and may raise. *)
Definition eval {A : Type} (o : outcome A) : exec S A := fun s => (o, s).

Definition get : exec S S := fun s => (Ok s, s).
Definition put (s' : S) : exec S unit := fun _ => (Ok tt, s').
End Exec.

Declare Scope exec_scope.
Delimit Scope exec_scope with exec.
Notation "x <- m ;; k" := (bind m (fun x => k))
  (at level 100, m at next level, right associativity) : exec_scope.
Notation "m ;; k" := (bind m (fun _ => k))
  (at level 100, right associativity) : exec_scope.
Local Open Scope exec_scope.

(** ** Record *)

(** The attributes of a [Record] object. *)
Record RecordObj : Type := mkRecord { name : Name; phones : list Phone }.

(** [Record.__init__]. *)
Definition Record_init (n : pystr) : outcome RecordObj :=
  match Name_init n with
  | Ok nm => Ok {| name := nm; phones := [] |}
  | Raise e => Raise e
  end.

(** [self.phones.append(phone)]. *)
Definition phones_append (phone : Phone) : exec RecordObj unit :=
  self <- get ;;
  put {| name := name self; phones := phones self ++ [phone] |}.

(** [Record.add_phone]. *)
Definition add_phone (phone_number : pystr) : exec RecordObj unit :=
  phone <- eval (Phone_init phone_number) ;;
  phones_append phone.

(** [Record.remove_phone]: the comprehension keeps, in order, the
    phones whose value differs from [phone_number]. *)
Definition remove_phone (phone_number : pystr) : exec RecordObj unit :=
  self <- get ;;
  put {| name := name self;
         phones := filter (fun p : Phone => value p <> phone_number)
                          (phones self) |}.

(** [Record.edit_phone]. *)
Definition edit_phone (old_phone_number new_phone_number : pystr)
  : exec RecordObj unit :=
  remove_phone old_phone_number ;;
  add_phone new_phone_number.

(** The [for] loop of [Record.find_phone]. *)
Fixpoint find_phone_loop (phone_number : pystr) (l : list Phone)
  : option Phone :=
  match l with
  | [] => None
  | phone :: rest =>
      if bool_decide (value phone = phone_number) then Some phone
      else find_phone_loop phone_number rest
  end.

(** [Record.find_phone]. *)
Definition find_phone (phone_number : pystr)
  : exec RecordObj (option Phone) :=
  self <- get ;;
  ret (find_phone_loop phone_number (phones self)).

(** ** AddressBook *)

(** References to [Record] objects, and the store giving the state of
    the object behind each reference. *)
Abbreviation ref := positive.
Definition store : Type := ref -> RecordObj.

(** The methods of [AddressBook] act on [self.data], a dictionary from
    [str] keys to references. *)
Module AddressBook.

(** [AddressBook.add_record]. *)
Definition add_record (heap : store) (record : ref)
  : exec (gmap pystr ref) unit :=
  data <- get ;;
  put (<[value (name (heap record)) := record]> data).

(** [AddressBook.find]: [dict.get] with default [None]. *)
Definition find (name : pystr) : exec (gmap pystr ref) (option ref) :=
  data <- get ;;
  ret (match data !! name with
       | Some record => Some record
       | None => None
       end).

(** [AddressBook.delete]. *)
Definition delete (name : pystr) : exec (gmap pystr ref) unit :=
  data <- get ;;
  if bool_decide (is_Some (data !! name))
  then put (base.delete name data)
  else ret tt.

End AddressBook.

(** ** Definitions used by the statements *)

(** The spec's reading of a phone number: exactly ten characters, each
    one of ['0'] to ['9']. *)
Definition ten_ascii_digits (s : pystr) : bool :=
  Nat.eqb (length s) 10 && forallb is_ascii_digit s.

(** Ten Arabic-Indic digits, U+0660 to U+0669. *)
Definition arabic_indic_digits : pystr :=
  [0x660; 0x661; 0x662; 0x663; 0x664; 0x665; 0x666; 0x667; 0x668; 0x669].

(** A phone as [Phone.__init__] builds it from its own value. *)
Definition validated (p : Phone) : Prop := Phone_init (value p) = Ok p.

(** [o] is the first phone of [l], in sequence order, whose value is
    [number], or [None] when there is none. *)
Definition first_with_value (number : pystr) (l : list Phone)
    (o : option Phone) : Prop :=
  match o with
  | Some p =>
      exists l1 l2, l = l1 ++ p :: l2 /\ value p = number /\
        Forall (fun q : Phone => value q <> number) l1
  | None => Forall (fun q : Phone => value q <> number) l
  end.

(** The states a [Record] object goes through: the state after
    [Record.__init__] returned, and the state left by any call of a
    method, whether the call returned or raised. *)
Inductive reachable : RecordObj -> Prop :=
  | reach_init n r : Record_init n = Ok r -> reachable r
  | reach_add_phone r x : reachable r -> reachable (snd (add_phone x r))
  | reach_remove_phone r x : reachable r -> reachable (snd (remove_phone x r))
  | reach_edit_phone r old new :
      reachable r -> reachable (snd (edit_phone old new r))
  | reach_find_phone r x : reachable r -> reachable (snd (find_phone x r)).

(** John's record in the module's demonstration. *)
Definition phone_of (s : string) : Phone := mkPhone (Field_init (str s)).

Definition john_record : RecordObj :=
  {| name := mkName (Field_init (str "John"));
     phones := [phone_of "1234567890"; phone_of "5555555555"] |}.

(** [r'] is a later state of the record object that was in state [r]:
    any number of method calls lie between them. *)
Inductive evolves (r : RecordObj) : RecordObj -> Prop :=
  | evolves_refl : evolves r r
  | evolves_add_phone r' x : evolves r r' -> evolves r (snd (add_phone x r'))
  | evolves_remove_phone r' x :
      evolves r r' -> evolves r (snd (remove_phone x r'))
  | evolves_edit_phone r' old new :
      evolves r r' -> evolves r (snd (edit_phone old new r'))
  | evolves_find_phone r' x : evolves r r' -> evolves r (snd (find_phone x r')).

(** ** String conversion *)

(** [Field.__str__]: [str(self.value)], and [str] of a [str] is that
    same string. *)
Definition Field_str (self : Field) : pystr := value self.

(** [sep.join(items)]. *)
Fixpoint join (sep : pystr) (items : list pystr) : pystr :=
  match items with
  | [] => []
  | x :: rest =>
      match rest with
      | [] => x
      | _ :: _ => x ++ sep ++ join sep rest
      end
  end.

(** [Record.__str__]. *)
Definition Record_str (self : RecordObj) : pystr :=
  let phones_str :=
    join (str "; ") (map (fun p : Phone => Field_str p) (phones self)) in
  str "Contact name: " ++ value (name self) ++ str ", phones: " ++ phones_str.

(** ** Method calls through a reference *)

(** The store in which the object behind [r] has state [s]. *)
Definition store_set (r : ref) (s : RecordObj) (heap : store) : store :=
  fun r' => if decide (r' = r) then s else heap r'.

(** [r.m(...)]: the method [m] run on the object behind [r]; the
    object's new state replaces the old one in the store. *)
Definition call {A : Type} (r : ref) (m : exec RecordObj A) : exec store A :=
  fun heap =>
    let (o, s) := m (heap r) in
    (o, store_set r s heap).

(** One step of a program that works on records and on one book:
    [Record(n)] giving a reference the book does not hold yet, a
    method call on a record, or a method call on the book. *)
Inductive book_step
  : store * gmap pystr ref -> store * gmap pystr ref -> Prop :=
  | step_Record heap data r n s :
      Record_init n = Ok s ->
      (forall k, data !! k <> Some r) ->
      book_step (heap, data) (store_set r s heap, data)
  | step_add_phone heap data r x :
      book_step (heap, data) (snd (call r (add_phone x) heap), data)
  | step_remove_phone heap data r x :
      book_step (heap, data) (snd (call r (remove_phone x) heap), data)
  | step_edit_phone heap data r old new :
      book_step (heap, data) (snd (call r (edit_phone old new) heap), data)
  | step_find_phone heap data r x :
      book_step (heap, data) (snd (call r (find_phone x) heap), data)
  | step_add_record heap data r :
      book_step (heap, data)
                (heap, snd (AddressBook.add_record heap r data))
  | step_find heap data k :
      book_step (heap, data) (heap, snd (AddressBook.find k data))
  | step_delete heap data k :
      book_step (heap, data) (heap, snd (AddressBook.delete k data)).

(** The states reached from an empty book. *)
Inductive book_reachable : store * gmap pystr ref -> Prop :=
  | book_init heap : book_reachable (heap, ∅)
  | book_next w w' : book_reachable w -> book_step w w' -> book_reachable w'.

(** A store holding John's record, and the state after John was added
    to an empty book and given one more phone. *)
Definition john_heap : store := fun _ => john_record.

Definition john_world : store * gmap pystr ref :=
  (snd (call 1%positive (add_phone (str "1112223333")) john_heap),
   snd (AddressBook.add_record john_heap 1%positive ∅)).

(** ** The dictionary in insertion order

    A Python [dict] iterates in insertion order: a new key goes to the
    end, an assignment to a key already there keeps the key's place,
    and a deletion closes the gap.  [AddressBook.__str__] depends on
    that order, so the dictionary is given here as the list of its
    items. *)
Module OrderedDict.

(** [d.get(k, None)]. *)
Fixpoint get {V : Type} (k : pystr) (d : list (pystr * V)) : option V :=
  match d with
  | [] => None
  | (k', v') :: d' => if bool_decide (k' = k) then Some v' else get k d'
  end.

(** [d[k] = v]. *)
Fixpoint set {V : Type} (k : pystr) (v : V) (d : list (pystr * V))
  : list (pystr * V) :=
  match d with
  | [] => [(k, v)]
  | (k', v') :: d' =>
      if bool_decide (k' = k) then (k', v) :: d' else (k', v') :: set k v d'
  end.

(** [del d[k]], where the key is present. *)
Fixpoint del {V : Type} (k : pystr) (d : list (pystr * V))
  : list (pystr * V) :=
  match d with
  | [] => []
  | (k', v') :: d' =>
      if bool_decide (k' = k) then d' else (k', v') :: del k d'
  end.

(** [d.values()]. *)
Definition values {V : Type} (d : list (pystr * V)) : list V := map snd d.

End OrderedDict.

(** [AddressBook] over the dictionary in insertion order. *)
Module OrderedBook.

(** [AddressBook.add_record]. *)
Definition add_record (heap : store) (record : ref)
  : exec (list (pystr * ref)) unit :=
  data <- get ;;
  put (OrderedDict.set (value (name (heap record))) record data).

(** [AddressBook.find]. *)
Definition find (name : pystr)
  : exec (list (pystr * ref)) (option ref) :=
  data <- get ;;
  ret (OrderedDict.get name data).

(** [AddressBook.delete]. *)
Definition delete (name : pystr) : exec (list (pystr * ref)) unit :=
  data <- get ;;
  if bool_decide (is_Some (OrderedDict.get name data))
  then put (OrderedDict.del name data)
  else ret tt.

(** [AddressBook.__str__]: one line for each record, in the order of
    [self.data.values()]. *)
Definition to_str (heap : store) (data : list (pystr * ref)) : pystr :=
  join [0x0a] (map (fun r => Record_str (heap r)) (OrderedDict.values data)).

End OrderedBook.

(** The items of a book holding John under reference 1 and another
    contact under reference 2. *)
Definition two_items : list (pystr * ref) :=
  [(str "John", 1%positive); (str "Jane", 2%positive)].

(** * Properties *)

(** The edit of the demonstration. *)
Example demo_edit :
  edit_phone (str "1234567890") (str "1112223333") john_record
  = (Ok tt,
     {| name := name john_record;
        phones := [phone_of "5555555555"; phone_of "1112223333"] |}).
Proof. vm_compute. reflexivity. Qed.

(** ** Running a method *)

Lemma bind_ok {S A B : Type} (m : exec S A) (k : A -> exec S B) s a s' :
  m s = (Ok a, s') -> bind m k s = k a s'.
Proof. unfold bind. intros ->. reflexivity. Qed.

Lemma bind_raise {S A B : Type} (m : exec S A) (k : A -> exec S B) s e s' :
  m s = (Raise e, s') -> bind m k s = (Raise e, s').
Proof. unfold bind. intros ->. reflexivity. Qed.

(** ** The class [\d] and the pattern [\d{n}] *)

Lemma in_range_spec c lo hi :
  in_range c (lo, hi) = true <-> lo <= c <= hi.
Proof.
  unfold in_range. cbn [fst snd].
  rewrite andb_true_iff, !N.leb_le. tauto.
Qed.

Lemma is_decimal_spec c :
  is_decimal c = true <->
  exists lo hi, In (lo, hi) decimal_ranges /\ lo <= c <= hi.
Proof.
  unfold is_decimal. rewrite existsb_exists. split.
  - intros [[lo hi] [Hin Hr]]. exists lo, hi.
    split; [exact Hin | by apply in_range_spec].
  - intros (lo & hi & Hin & Hr). exists (lo, hi).
    split; [exact Hin | by apply in_range_spec].
Qed.

Lemma ascii_digit_is_decimal c : is_ascii_digit c = true -> is_decimal c = true.
Proof.
  intros H. unfold is_decimal, decimal_ranges.
  cbn [existsb]. unfold is_ascii_digit in H.
  unfold in_range at 1. cbn [fst snd]. rewrite H. reflexivity.
Qed.

(** Every range after the first lies above the ASCII block. *)
Lemma decimal_ranges_tail_above_ascii :
  forallb (fun r => 0x80 <=? fst r) (tail decimal_ranges) = true.
Proof. vm_compute. reflexivity. Qed.

Lemma is_decimal_ascii c :
  is_decimal c && is_ascii c = is_ascii_digit c.
Proof.
  unfold is_ascii. destruct (N.ltb_spec c 0x80) as [Hlt | Hge].
  - rewrite andb_true_r.
    assert (Htl : existsb (in_range c) (tail decimal_ranges) = false).
    { apply not_true_is_false. rewrite existsb_exists.
      intros [[lo hi] [Hin Hr]].
      pose proof decimal_ranges_tail_above_ascii as Hall.
      rewrite forallb_forall in Hall. specialize (Hall _ Hin).
      cbn [fst] in Hall. apply N.leb_le in Hall.
      apply in_range_spec in Hr. lia. }
    unfold is_decimal.
    change decimal_ranges with ((0x30, 0x39) :: tail decimal_ranges).
    cbn [existsb]. rewrite Htl, orb_false_r. reflexivity.
  - rewrite andb_false_r. symmetry. unfold is_ascii_digit.
    apply andb_false_iff. right. apply N.leb_gt. lia.
Qed.

Lemma fullmatch_digits_spec n s :
  fullmatch_digits n s = true <->
  length s = n /\ Forall (fun c => is_decimal c = true) s.
Proof.
  revert s. induction n as [| n IH]; intros [| c s]; cbn [fullmatch_digits length].
  - split; [intros _; split; [reflexivity | constructor] | reflexivity].
  - split; [discriminate | intros [Hlen _]; discriminate].
  - split; [discriminate | intros [Hlen _]; discriminate].
  - rewrite andb_true_iff, IH, Forall_cons. split.
    + intros (Hc & Hlen & Hall). by rewrite Hlen.
    + intros (Hlen & Hc & Hall). injection Hlen as Hlen. done.
Qed.

Lemma fullmatch_digits_ascii n s :
  fullmatch_digits n s && forallb is_ascii s
  = Nat.eqb (length s) n && forallb is_ascii_digit s.
Proof.
  revert s. induction n as [| n IH]; intros [| c s];
    cbn [fullmatch_digits length forallb Nat.eqb]; try reflexivity.
  rewrite <- is_decimal_ascii.
  destruct (is_decimal c), (is_ascii c); cbn [andb];
    rewrite ?andb_false_r; try reflexivity.
  exact (IH s).
Qed.


(** ** Name and Phone *)

(** C6. [Name(s)] returns a name of value [s] exactly when [s] is not
    empty, and raises [ValueError] exactly when [s] is empty. *)
Theorem Name_init_spec (s : pystr) :
  (Name_init s = Ok (mkName (Field_init s)) <-> s <> [])
  /\ (Name_init s = Raise (ValueError "Name cannot be empty") <-> s = [])
  /\ (forall n, Name_init s = Ok n -> value n = s)
  /\ (raises (Name_init s) = true <-> s = []).
Proof.
  unfold Name_init. case_bool_decide as Hs; cbn [raises].
  - repeat split; try done.
  - repeat split; try done.
    intros n [= <-]. reflexivity.
Qed.

(** C1, against the claim: a string of ten Arabic-Indic digits holds no
    character of ['0'] to ['9'], and [Phone] accepts it. *)
Lemma Phone_init_accepts_non_ascii_digits :
  Phone_init arabic_indic_digits
    = Ok (mkPhone (Field_init arabic_indic_digits))
  /\ ten_ascii_digits arabic_indic_digits = false.
Proof. split; vm_compute; reflexivity. Qed.

(** C1, amended. [Phone(s)] returns a phone of value [s] exactly when
    [s] is ten characters long and each character is a Unicode decimal
    digit (the class [\d]); otherwise it raises [ValueError].  Among
    the strings of ASCII characters, the accepted ones are exactly
    those of ten characters ['0'] to ['9']. *)
Theorem Phone_init_spec (s : pystr) :
  (Phone_init s = Ok (mkPhone (Field_init s)) <->
     length s = 10%nat /\ Forall (fun c => is_decimal c = true) s)
  /\ (Phone_init s = Raise (ValueError "Phone number must be 10 digits") <->
     ~ (length s = 10%nat /\ Forall (fun c => is_decimal c = true) s))
  /\ (forall p, Phone_init s = Ok p -> value p = s)
  /\ negb (raises (Phone_init s)) && forallb is_ascii s = ten_ascii_digits s.
Proof.
  pose proof (fullmatch_digits_spec 10 s) as Hm.
  pose proof (fullmatch_digits_ascii 10 s) as Ha.
  unfold Phone_init, ten_ascii_digits.
  destruct (fullmatch_digits 10 s); cbn [negb raises] in *.
  - assert (Hs : length s = 10%nat /\ Forall (fun c => is_decimal c = true) s)
      by (by apply Hm).
    split; [| split; [| split]].
    + split; [intros _; exact Hs | reflexivity].
    + split; [discriminate | intros Hn; destruct (Hn Hs)].
    + intros p [= <-]. reflexivity.
    + exact Ha.
  - assert (Hs : ~ (length s = 10%nat /\ Forall (fun c => is_decimal c = true) s)).
    { intros H. apply Hm in H. discriminate. }
    split; [| split; [| split]].
    + split; [discriminate | intros H; destruct (Hs H)].
    + split; [intros _; exact Hs | reflexivity].
    + discriminate.
    + exact Ha.
Qed.

(** ** Record: the equations of the methods *)

Lemma record_eta (r : RecordObj) :
  {| name := name r; phones := phones r |} = r.
Proof. destruct r. reflexivity. Qed.

Lemma Phone_init_ok x :
  fullmatch_digits 10 x = true -> Phone_init x = Ok (mkPhone (Field_init x)).
Proof. unfold Phone_init. intros ->. reflexivity. Qed.

Lemma Phone_init_raise x :
  fullmatch_digits 10 x = false ->
  Phone_init x = Raise (ValueError "Phone number must be 10 digits").
Proof. unfold Phone_init. intros ->. reflexivity. Qed.

Lemma raises_Phone_init x :
  raises (Phone_init x) = negb (fullmatch_digits 10 x).
Proof. unfold Phone_init. destruct (fullmatch_digits 10 x); reflexivity. Qed.

Lemma add_phone_ok (r : RecordObj) x :
  fullmatch_digits 10 x = true ->
  add_phone x r
  = (Ok tt, {| name := name r;
               phones := phones r ++ [mkPhone (Field_init x)] |}).
Proof.
  intros Hx. unfold add_phone.
  erewrite bind_ok by (unfold eval; rewrite (Phone_init_ok _ Hx); reflexivity).
  reflexivity.
Qed.

Lemma add_phone_raise (r : RecordObj) x :
  fullmatch_digits 10 x = false ->
  add_phone x r = (Raise (ValueError "Phone number must be 10 digits"), r).
Proof.
  intros Hx. unfold add_phone.
  erewrite bind_raise by (unfold eval; rewrite (Phone_init_raise _ Hx); reflexivity).
  reflexivity.
Qed.

Lemma remove_phone_eq (r : RecordObj) x :
  remove_phone x r
  = (Ok tt, {| name := name r;
               phones := filter (fun p : Phone => value p <> x) (phones r) |}).
Proof. reflexivity. Qed.

Lemma edit_phone_eq (r : RecordObj) old new :
  edit_phone old new r = add_phone new (snd (remove_phone old r)).
Proof. reflexivity. Qed.

Lemma find_phone_eq (r : RecordObj) x :
  find_phone x r = (Ok (find_phone_loop x (phones r)), r).
Proof. reflexivity. Qed.

(** ** Lists of phones *)

Section Filter.
Context {A : Type} (P : A -> Prop) `{!forall x, Decision (P x)}.

Lemma filter_Forall_id (l : list A) : Forall P l -> filter P l = l.
Proof.
  induction 1 as [| a l Ha _ IH]; [reflexivity |].
  rewrite filter_cons_True by exact Ha. by rewrite IH.
Qed.

Lemma Forall_filter_self (l : list A) : Forall P (filter P l).
Proof.
  apply Forall_forall. intros a Ha.
  apply list_elem_of_filter in Ha. tauto.
Qed.

Lemma filter_idemp (l : list A) : filter P (filter P l) = filter P l.
Proof. apply filter_Forall_id, Forall_filter_self. Qed.
End Filter.

Lemma find_phone_loop_spec number (l : list Phone) :
  first_with_value number l (find_phone_loop number l).
Proof.
  induction l as [| p l IH]; cbn [find_phone_loop].
  - constructor.
  - case_bool_decide as Hp.
    + exists [], l. repeat split; [exact Hp | constructor].
    + destruct (find_phone_loop number l) as [q |]; cbn in IH |- *.
      * destruct IH as (l1 & l2 & -> & Hq & Hl1).
        exists (p :: l1), l2. repeat split; [exact Hq |].
        by constructor.
      * by constructor.
Qed.

(** A phone of value [number] anywhere in the sequence makes the loop
    return a phone of that value. *)
Lemma find_phone_loop_elem number (l : list Phone) (p : Phone) :
  p ∈ l -> value p = number ->
  exists q : Phone, find_phone_loop number l = Some q /\ value q = number.
Proof.
  intros Hin Hp.
  pose proof (find_phone_loop_spec number l) as Hs.
  destruct (find_phone_loop number l) as [q |]; cbn in Hs.
  - destruct Hs as (_ & _ & _ & Hq & _). by exists q.
  - rewrite Forall_forall in Hs. destruct (Hs p Hin Hp).
Qed.

(** ** Record: removing, editing, finding *)

(** C4. [remove_phone(number)] returns without raising and leaves the
    name alone; the phones kept are those of value other than
    [number], in their order; when no phone has value [number] the
    record is unchanged; a second call changes nothing more. *)
Theorem remove_phone_spec (r : RecordObj) (number : pystr) :
  exists kept : list Phone,
    remove_phone number r = (Ok tt, {| name := name r; phones := kept |})
    /\ kept = filter (fun p : Phone => value p <> number) (phones r)
    /\ Forall (fun p : Phone => value p <> number) kept
    /\ kept `sublist_of` phones r
    /\ (forall p : Phone, p ∈ kept <-> p ∈ phones r /\ value p <> number)
    /\ (Forall (fun p : Phone => value p <> number) (phones r) ->
        remove_phone number r = (Ok tt, r))
    /\ (remove_phone number ;; remove_phone number) r = remove_phone number r.
Proof.
  eexists. split; [apply remove_phone_eq |].
  split; [reflexivity |].
  split; [apply Forall_filter_self |].
  split; [apply sublist_filter |].
  split; [intros p; rewrite list_elem_of_filter; tauto |].
  split.
  - intros Hall. rewrite remove_phone_eq, filter_Forall_id by exact Hall.
    by rewrite record_eta.
  - erewrite bind_ok by apply remove_phone_eq.
    rewrite !remove_phone_eq. cbn [name phones].
    by rewrite filter_idemp.
Qed.

(** C3. With [new] a valid number, [edit_phone(old, new)] returns; the
    phones are then those of value other than [old], in their order,
    followed by a phone of value [new]; when no phone has value [old]
    nothing is removed and [new] is appended all the same. *)
Theorem edit_phone_valid_new (r : RecordObj) (old new : pystr) :
  raises (Phone_init new) = false ->
  exists kept : list Phone,
    edit_phone old new r
      = (Ok tt, {| name := name r;
                   phones := kept ++ [mkPhone (Field_init new)] |})
    /\ kept = filter (fun p : Phone => value p <> old) (phones r)
    /\ kept `sublist_of` phones r
    /\ (forall p : Phone, p ∈ kept <-> p ∈ phones r /\ value p <> old)
    /\ (Forall (fun p : Phone => value p <> old) (phones r) ->
        kept = phones r /\ edit_phone old new r = add_phone new r).
Proof.
  rewrite raises_Phone_init, negb_false_iff. intros Hnew.
  exists (filter (fun p : Phone => value p <> old) (phones r)). split.
  { rewrite edit_phone_eq, remove_phone_eq. cbn [snd].
    rewrite (add_phone_ok _ _ Hnew). reflexivity. }
  split; [reflexivity |].
  split; [apply sublist_filter |].
  split; [intros p; rewrite list_elem_of_filter; tauto |].
  intros Hall. split; [by apply filter_Forall_id |].
  rewrite edit_phone_eq, remove_phone_eq. cbn [snd].
  rewrite filter_Forall_id by exact Hall. by rewrite record_eta.
Qed.

Lemma edit_phone_valid_new_witness :
  raises (Phone_init (str "1112223333")) = false
  /\ exists kept : list Phone,
    edit_phone (str "1234567890") (str "1112223333") john_record
      = (Ok tt, {| name := name john_record;
                   phones := kept ++ [phone_of "1112223333"] |})
    /\ kept = [phone_of "5555555555"].
Proof.
  split; [reflexivity |].
  destruct (edit_phone_valid_new john_record (str "1234567890")
              (str "1112223333") eq_refl) as (kept & Hrun & Hkept & _).
  exists kept. split; [exact Hrun | rewrite Hkept; reflexivity].
Defined.

(** C2. On a record whose phones are exactly ["1234567890"],
    [edit_phone("1234567890", "bad")] raises [ValueError] and leaves
    the record with no phone: the old number is gone although the call
    failed. *)
Theorem edit_phone_invalid_new_not_atomic (nm : Name) :
  let r := {| name := nm; phones := [phone_of "1234567890"] |} in
  edit_phone (str "1234567890") (str "bad") r
    = (Raise (ValueError "Phone number must be 10 digits"),
       {| name := nm; phones := [] |})
  /\ snd (edit_phone (str "1234567890") (str "bad") r) <> r.
Proof.
  cbn zeta. split; [reflexivity |].
  intros H. apply (f_equal phones) in H. discriminate H.
Qed.

(** C9. When [Phone(x)] raises, [add_phone(x)] raises the same
    [ValueError] and the record, name and phones, is as it was. *)
Theorem add_phone_invalid_unchanged (r : RecordObj) (x : pystr) :
  raises (Phone_init x) = true ->
  Phone_init x = Raise (ValueError "Phone number must be 10 digits")
  /\ add_phone x r = (Raise (ValueError "Phone number must be 10 digits"), r).
Proof.
  rewrite raises_Phone_init, negb_true_iff. intros Hx.
  split; [by apply Phone_init_raise | by apply add_phone_raise].
Qed.

Lemma add_phone_invalid_unchanged_witness :
  raises (Phone_init (str "bad")) = true
  /\ add_phone (str "bad") john_record
     = (Raise (ValueError "Phone number must be 10 digits"), john_record).
Proof.
  split; [reflexivity |].
  apply (add_phone_invalid_unchanged john_record (str "bad")). reflexivity.
Defined.

(** C5, against the claim: ["bad"] is a string; [add_phone("bad")]
    raises, so [add_phone("bad")] and then [find_phone("bad")] returns
    no phone, and [find_phone("bad")] on the record left behind
    returns [None]. *)
Lemma add_then_find_phone_invalid :
  (add_phone (str "bad") ;; find_phone (str "bad")) john_record
    = (Raise (ValueError "Phone number must be 10 digits"), john_record)
  /\ find_phone (str "bad") (snd (add_phone (str "bad") john_record))
     = (Ok None, john_record).
Proof. split; vm_compute; reflexivity. Qed.

(** C5, amended. For [x] a valid number, [add_phone(x)] returns and
    [find_phone(x)] then returns a phone of value [x], the first of
    that value in the sequence.  In general [find_phone(number)]
    returns, without changing the record, the first phone of value
    [number] in sequence order, or [None] when no phone has that
    value. *)
Theorem add_phone_then_find_phone (r : RecordObj) (x number : pystr) :
  raises (Phone_init x) = false ->
  (exists (p : Phone) (r' : RecordObj),
      add_phone x r = (Ok tt, r')
      /\ (add_phone x ;; find_phone x) r = (Ok (Some p), r')
      /\ value p = x
      /\ first_with_value x (phones r') (Some p))
  /\ (exists o, find_phone number r = (Ok o, r)
                /\ first_with_value number (phones r) o).
Proof.
  rewrite raises_Phone_init, negb_false_iff. intros Hx. split.
  - pose proof (add_phone_ok r x Hx) as Hadd.
    destruct (find_phone_loop_elem x
                (phones r ++ [mkPhone (Field_init x)])
                (mkPhone (Field_init x))) as (q & Hq & Hv).
    + apply elem_of_app. right. by apply list_elem_of_singleton.
    + reflexivity.
    + exists q. eexists. split; [exact Hadd |].
      rewrite (bind_ok _ _ _ _ _ Hadd), find_phone_eq. cbn [phones].
      rewrite Hq. split; [reflexivity |]. split; [exact Hv |].
      rewrite <- Hq. apply find_phone_loop_spec.
  - eexists. split; [apply find_phone_eq | apply find_phone_loop_spec].
Qed.

Lemma add_phone_then_find_phone_witness :
  raises (Phone_init (str "1112223333")) = false
  /\ exists (p : Phone) (r' : RecordObj),
       (add_phone (str "1112223333") ;; find_phone (str "1112223333"))
         john_record = (Ok (Some p), r')
       /\ value p = str "1112223333".
Proof.
  split; [reflexivity |].
  destruct (proj1 (add_phone_then_find_phone john_record (str "1112223333")
                     (str "5555555555") eq_refl))
    as (p & r' & _ & Hrun & Hp & _).
  exists p, r'. split; assumption.
Defined.

(** ** Record: every stored phone is validated *)

Lemma validated_spec (p : Phone) :
  validated p <-> fullmatch_digits 10 (value p) = true.
Proof.
  destruct p as [[v]]. unfold validated, Phone_init, Field_init.
  cbn [value Phone_super].
  destruct (fullmatch_digits 10 v); cbn [negb]; split; congruence.
Qed.

Lemma Record_init_phones n r : Record_init n = Ok r -> phones r = [].
Proof.
  unfold Record_init. destruct (Name_init n); [| discriminate].
  intros [= <-]. reflexivity.
Qed.

Lemma add_phone_validated (r : RecordObj) x :
  Forall validated (phones r) ->
  Forall validated (phones (snd (add_phone x r))).
Proof.
  intros Hr. destruct (fullmatch_digits 10 x) eqn:Hx.
  - rewrite (add_phone_ok _ _ Hx). cbn [snd phones].
    apply Forall_app. split; [exact Hr |].
    apply Forall_singleton, validated_spec. exact Hx.
  - rewrite (add_phone_raise _ _ Hx). exact Hr.
Qed.

Lemma remove_phone_validated (r : RecordObj) x :
  Forall validated (phones r) ->
  Forall validated (phones (snd (remove_phone x r))).
Proof.
  intros Hr. rewrite remove_phone_eq. cbn [snd phones].
  rewrite Forall_forall in Hr |- *. intros p Hp.
  apply list_elem_of_filter in Hp. apply Hr, Hp.
Qed.

Lemma reachable_validated (r : RecordObj) :
  reachable r -> Forall validated (phones r).
Proof.
  induction 1 as [n r Hinit | r x _ IH | r x _ IH | r old new _ IH | r x _ IH].
  - rewrite (Record_init_phones _ _ Hinit). constructor.
  - by apply add_phone_validated.
  - by apply remove_phone_validated.
  - rewrite edit_phone_eq. by apply add_phone_validated, remove_phone_validated.
  - exact IH.
Qed.

Lemma john_record_reachable : reachable john_record.
Proof.
  exact (reach_add_phone _ (str "5555555555")
           (reach_add_phone _ (str "1234567890")
              (reach_init (str "John") _ eq_refl))).
Qed.

(** C10. In every state a record reaches through [Record(name)],
    [add_phone], [remove_phone], [edit_phone] and [find_phone], calls
    that raised included, each stored phone is what [Phone] builds
    from its value, so the value has ten characters of class [\d];
    [remove_phone] and [find_phone] raise for no argument. *)
Theorem reachable_phones_validated (r : RecordObj) :
  reachable r ->
  Forall (fun p : Phone =>
            validated p /\ length (value p) = 10%nat /\
            Forall (fun c => is_decimal c = true) (value p)) (phones r)
  /\ (forall x, raises (fst (remove_phone x r)) = false)
  /\ (forall x, raises (fst (find_phone x r)) = false).
Proof.
  intros Hr. split; [| split; reflexivity].
  eapply Forall_impl; [apply reachable_validated, Hr |].
  intros p Hp. split; [exact Hp |].
  apply fullmatch_digits_spec, validated_spec, Hp.
Qed.

Lemma reachable_phones_validated_witness :
  reachable john_record
  /\ Forall validated (phones john_record)
  /\ raises (fst (remove_phone (str "bad") john_record)) = false.
Proof.
  split; [exact john_record_reachable |].
  destruct (reachable_phones_validated john_record john_record_reachable)
    as (Hall & Hrm & _).
  split; [| apply Hrm].
  eapply Forall_impl; [exact Hall | intros p Hp; apply Hp].
Defined.

(** ** AddressBook *)

(** C7. [add_record(record)] returns without raising; afterwards the
    key [record.name.value] maps to [record], whatever it mapped to
    before, and every other key maps to what it did. *)
Theorem add_record_last_write_wins
    (heap : store) (record : ref) (data : gmap pystr ref) :
  exists data' : gmap pystr ref,
    AddressBook.add_record heap record data = (Ok tt, data')
    /\ data' !! value (name (heap record)) = Some record
    /\ (forall k, k <> value (name (heap record)) -> data' !! k = data !! k)
    /\ dom data' = {[value (name (heap record))]} ∪ dom data.
Proof.
  exists (<[value (name (heap record)) := record]> data).
  split; [reflexivity |].
  split; [apply lookup_insert_eq |].
  split; [intros k Hk; by apply lookup_insert_ne |].
  apply dom_insert_L.
Qed.

(** C8. [find(r.name.value)] after [add_record(r)] returns the
    reference [r] itself; after [delete(r.name.value)] it returns
    [None]; [delete] of a name the book does not hold returns without
    raising and leaves the book as it was. *)
Theorem book_round_trip
    (heap : store) (record : ref) (data : gmap pystr ref) (absent : pystr) :
  let key := value (name (heap record)) in
  (AddressBook.add_record heap record ;; AddressBook.find key) data
    = (Ok (Some record), <[key := record]> data)
  /\ (AddressBook.delete key ;; AddressBook.find key) data
     = (Ok None, delete key data)
  /\ (AddressBook.add_record heap record ;; AddressBook.delete key ;;
      AddressBook.find key) data
     = (Ok None, delete key data)
  /\ (data !! absent = None -> AddressBook.delete absent data = (Ok tt, data)).
Proof.
  intros key.
  assert (Hdel : forall d : gmap pystr ref,
             AddressBook.delete key d = (Ok tt, delete key d)).
  { intros d. unfold AddressBook.delete, bind, get, put, ret.
    case_bool_decide as Hin; [reflexivity |].
    rewrite delete_id; [reflexivity |].
    by apply eq_None_not_Some. }
  assert (Hfind : forall d : gmap pystr ref,
             AddressBook.find key d = (Ok (d !! key), d)).
  { intros d. unfold AddressBook.find, bind, get, ret.
    by destruct (d !! key). }
  assert (Hadd : AddressBook.add_record heap record data
                 = (Ok tt, <[key := record]> data)) by reflexivity.
  split; [| split; [| split]].
  - rewrite (bind_ok _ _ _ _ _ Hadd), Hfind, lookup_insert_eq. reflexivity.
  - rewrite (bind_ok _ _ _ _ _ (Hdel data)), Hfind, lookup_delete_eq.
    reflexivity.
  - rewrite (bind_ok _ _ _ _ _ Hadd), (bind_ok _ _ _ _ _ (Hdel _)), Hfind.
    by rewrite lookup_delete_eq, delete_insert_eq.
  - intros Habs. unfold AddressBook.delete, bind, get, put, ret.
    case_bool_decide as Hin; [| reflexivity].
    rewrite Habs in Hin. by destruct Hin.
Qed.

(** * Further properties *)

(** ** Record: construction and the name *)

(** X1. [Record(n)] returns exactly when [n] is not empty, and the
    record then has name [n] and no phone; for the empty string it
    raises the [ValueError] of [Name]. *)
Theorem Record_init_spec (n : pystr) :
  (Record_init n = Ok {| name := mkName (Field_init n); phones := [] |}
     <-> n <> [])
  /\ (Record_init n = Raise (ValueError "Name cannot be empty") <-> n = [])
  /\ (forall r, Record_init n = Ok r -> value (name r) = n /\ phones r = []).
Proof.
  unfold Record_init, Name_init. case_bool_decide as Hn.
  - split; [| split]; [split; [discriminate | done] | done | discriminate].
  - split; [| split]; [done | split; [discriminate | done] |].
    intros r [= <-]. split; reflexivity.
Qed.

Lemma method_keeps_name (r : RecordObj) (x y : pystr) :
  name (snd (add_phone x r)) = name r
  /\ name (snd (remove_phone x r)) = name r
  /\ name (snd (edit_phone x y r)) = name r
  /\ name (snd (find_phone x r)) = name r.
Proof.
  assert (Hadd : forall s z, name (snd (add_phone z s)) = name s).
  { intros s z. destruct (fullmatch_digits 10 z) eqn:Hz.
    - by rewrite (add_phone_ok _ _ Hz).
    - by rewrite (add_phone_raise _ _ Hz). }
  split; [apply Hadd |]. split; [reflexivity |]. split; [| reflexivity].
  rewrite edit_phone_eq, Hadd. reflexivity.
Qed.

(** X2. The name given to [Record(n)] is the record's name after any
    sequence of [add_phone], [remove_phone], [edit_phone] and
    [find_phone] calls, returned or raised; it is never empty. *)
Theorem name_is_permanent (n : pystr) (r0 r : RecordObj) :
  Record_init n = Ok r0 -> evolves r0 r ->
  name r = mkName (Field_init n) /\ value (name r) = n /\ n <> [].
Proof.
  intros Hinit Hev.
  assert (Hname : name r = name r0).
  { induction Hev as [| r' x _ IH | r' x _ IH | r' old new _ IH | r' x _ IH].
    - reflexivity.
    - rewrite <- IH. apply (method_keeps_name r' x x).
    - rewrite <- IH. apply (method_keeps_name r' x x).
    - rewrite <- IH. apply (method_keeps_name r' old new).
    - rewrite <- IH. apply (method_keeps_name r' x x). }
  rewrite Hname. unfold Record_init, Name_init in Hinit.
  case_bool_decide as Hn; [discriminate |].
  injection Hinit as <-. done.
Qed.

Lemma name_is_permanent_witness :
  Record_init (str "John") = Ok {| name := name john_record; phones := [] |}
  /\ value (name john_record) = str "John".
Proof.
  split; [reflexivity |].
  refine (proj1 (proj2 (name_is_permanent (str "John") _ john_record
                          eq_refl _))).
  exact (evolves_add_phone _ _ (str "5555555555")
           (evolves_add_phone _ _ (str "1234567890") (evolves_refl _))).
Defined.

(** ** Record: how the methods compose *)

Lemma filter_value_snoc (x : pystr) (l : list Phone) (p : Phone) :
  value p = x ->
  filter (fun q : Phone => value q <> x) (l ++ [p])
  = filter (fun q : Phone => value q <> x) l.
Proof.
  intros Hp. rewrite filter_app, filter_cons_False, filter_nil.
  - apply app_nil_r.
  - intros H. by apply H.
Qed.

(** X3. With [x] valid, [add_phone(x)] returns and appends one
    validated phone of value [x] behind the phones already there,
    duplicates included: the record holds one more phone of value [x]
    than before. *)
Theorem add_phone_appends (r : RecordObj) (x : pystr) :
  raises (Phone_init x) = false ->
  exists p : Phone,
    add_phone x r = (Ok tt, {| name := name r; phones := phones r ++ [p] |})
    /\ value p = x /\ validated p
    /\ length (filter (fun q : Phone => value q = x) (phones r ++ [p]))
       = S (length (filter (fun q : Phone => value q = x) (phones r))).
Proof.
  rewrite raises_Phone_init, negb_false_iff. intros Hx.
  exists (mkPhone (Field_init x)).
  split; [by apply add_phone_ok |].
  split; [reflexivity |].
  split; [by apply validated_spec |].
  rewrite filter_app, length_app, filter_cons_True by reflexivity.
  cbn [filter length]. rewrite filter_nil. cbn [length]. lia.
Qed.

Lemma add_phone_appends_witness :
  raises (Phone_init (str "1234567890")) = false
  /\ exists p : Phone,
       add_phone (str "1234567890") john_record
       = (Ok tt, {| name := name john_record;
                    phones := phones john_record ++ [p] |})
       /\ value p = str "1234567890".
Proof.
  split; [reflexivity |].
  destruct (add_phone_appends john_record (str "1234567890") eq_refl)
    as (p & Hrun & Hp & _).
  exists p. split; assumption.
Defined.

(** X4. With [x] valid, [add_phone(x)] followed by [remove_phone(x)]
    leaves what [remove_phone(x)] alone leaves. *)
Theorem add_then_remove_phone (r : RecordObj) (x : pystr) :
  raises (Phone_init x) = false ->
  (add_phone x ;; remove_phone x) r = remove_phone x r.
Proof.
  rewrite raises_Phone_init, negb_false_iff. intros Hx.
  rewrite (bind_ok _ _ _ _ _ (add_phone_ok r x Hx)), !remove_phone_eq.
  cbn [name phones]. by rewrite filter_value_snoc.
Qed.

Lemma add_then_remove_phone_witness :
  raises (Phone_init (str "1112223333")) = false
  /\ (add_phone (str "1112223333") ;; remove_phone (str "1112223333"))
       john_record
     = (Ok tt, john_record).
Proof.
  split; [reflexivity |].
  rewrite (add_then_remove_phone john_record (str "1112223333") eq_refl).
  reflexivity.
Defined.

Lemma find_phone_loop_None x (l : list Phone) :
  find_phone_loop x l = None <-> Forall (fun q : Phone => value q <> x) l.
Proof.
  induction l as [| p l IH]; cbn [find_phone_loop].
  - split; [constructor | reflexivity].
  - rewrite Forall_cons. case_bool_decide as Hp.
    + split; [discriminate | intros [H _]; destruct (H Hp)].
    + rewrite IH. tauto.
Qed.

Lemma find_phone_loop_filter x y (l : list Phone) :
  y <> x ->
  find_phone_loop y (filter (fun q : Phone => value q <> x) l)
  = find_phone_loop y l.
Proof.
  intros Hyx. induction l as [| p l IH]; [reflexivity |].
  cbn [find_phone_loop]. destruct (decide (value p = x)) as [Hp | Hp].
  - rewrite filter_cons_False by (intros H; by apply H).
    rewrite IH. case_bool_decide as Hy; [| reflexivity]. congruence.
  - rewrite filter_cons_True by exact Hp. cbn [find_phone_loop].
    by rewrite IH.
Qed.

(** X5. After [remove_phone(x)], [find_phone(x)] returns [None], and
    [find_phone(y)] for any other [y] returns what it returned
    before. *)
Theorem remove_then_find_phone (r : RecordObj) (x y : pystr) :
  (remove_phone x ;; find_phone x) r = (Ok None, snd (remove_phone x r))
  /\ (y <> x ->
      fst ((remove_phone x ;; find_phone y) r) = fst (find_phone y r)).
Proof.
  rewrite !(bind_ok _ _ _ _ _ (remove_phone_eq r x)), !find_phone_eq.
  rewrite remove_phone_eq. cbn [snd fst phones]. split.
  - f_equal. f_equal. apply find_phone_loop_None, Forall_filter_self.
  - intros Hy. f_equal. by apply find_phone_loop_filter.
Qed.

(** X6. Two removals commute: [remove_phone(x)] then [remove_phone(y)]
    leaves the record that [remove_phone(y)] then [remove_phone(x)]
    leaves. *)
Theorem remove_phone_comm (r : RecordObj) (x y : pystr) :
  (remove_phone x ;; remove_phone y) r = (remove_phone y ;; remove_phone x) r.
Proof.
  rewrite (bind_ok _ _ _ _ _ (remove_phone_eq r x)).
  rewrite (bind_ok _ _ _ _ _ (remove_phone_eq r y)).
  rewrite !remove_phone_eq. cbn [name phones].
  rewrite !list_filter_filter. f_equal. f_equal.
  apply list_filter_iff. intros p. tauto.
Qed.

(** X7. When [new] is not a valid number, [edit_phone(old, new)]
    raises [ValueError] on every record, and the phones of value [old]
    are gone all the same; the record is as it was only if it held no
    phone of value [old]. *)
Theorem edit_phone_invalid_new (r : RecordObj) (old new : pystr) :
  raises (Phone_init new) = true ->
  edit_phone old new r
    = (Raise (ValueError "Phone number must be 10 digits"),
       {| name := name r;
          phones := filter (fun p : Phone => value p <> old) (phones r) |})
  /\ (snd (edit_phone old new r) = r <->
      Forall (fun p : Phone => value p <> old) (phones r)).
Proof.
  rewrite raises_Phone_init, negb_true_iff. intros Hnew.
  assert (Hrun : edit_phone old new r
    = (Raise (ValueError "Phone number must be 10 digits"),
       {| name := name r;
          phones := filter (fun p : Phone => value p <> old) (phones r) |})).
  { rewrite edit_phone_eq, remove_phone_eq. cbn [snd].
    by rewrite (add_phone_raise _ _ Hnew). }
  split; [exact Hrun |]. rewrite Hrun. cbn [snd]. split.
  - intros Hr. apply (f_equal phones) in Hr. cbn [phones] in Hr.
    rewrite <- Hr. apply Forall_filter_self.
  - intros Hall. rewrite filter_Forall_id by exact Hall. apply record_eta.
Qed.

Lemma edit_phone_invalid_new_witness :
  raises (Phone_init (str "bad")) = true
  /\ edit_phone (str "5555555555") (str "bad") john_record
     = (Raise (ValueError "Phone number must be 10 digits"),
        {| name := name john_record; phones := [phone_of "1234567890"] |}).
Proof.
  split; [reflexivity |].
  rewrite (proj1 (edit_phone_invalid_new john_record (str "5555555555")
                    (str "bad") eq_refl)).
  reflexivity.
Defined.

(** X8. After [edit_phone(old, new)] has returned, [find_phone(new)]
    returns a phone of value [new], and, when [old] differs from
    [new], [find_phone(old)] returns [None]. *)
Theorem edit_then_find_phone (r : RecordObj) (old new : pystr) :
  raises (Phone_init new) = false ->
  (exists (p : Phone) r',
      (edit_phone old new ;; find_phone new) r = (Ok (Some p), r')
      /\ value p = new)
  /\ (old <> new ->
      exists r', (edit_phone old new ;; find_phone old) r = (Ok None, r')).
Proof.
  rewrite raises_Phone_init, negb_false_iff. intros Hnew.
  assert (Hrun : edit_phone old new r
    = (Ok tt,
       {| name := name r;
          phones := filter (fun p : Phone => value p <> old) (phones r)
                    ++ [mkPhone (Field_init new)] |})).
  { rewrite edit_phone_eq, remove_phone_eq. cbn [snd].
    by rewrite (add_phone_ok _ _ Hnew). }
  rewrite !(bind_ok _ _ _ _ _ Hrun), !find_phone_eq. cbn [phones]. split.
  - destruct (find_phone_loop_elem new
                (filter (fun p : Phone => value p <> old) (phones r)
                 ++ [mkPhone (Field_init new)])
                (mkPhone (Field_init new))) as (q & Hq & Hv).
    + apply elem_of_app. right. by apply list_elem_of_singleton.
    + reflexivity.
    + exists q. eexists. rewrite Hq. split; [reflexivity | exact Hv].
  - intros Hne. eexists. f_equal. f_equal.
    apply find_phone_loop_None, Forall_app. split.
    + apply Forall_filter_self.
    + apply Forall_singleton. cbn. congruence.
Qed.

Lemma edit_then_find_phone_witness :
  raises (Phone_init (str "1112223333")) = false
  /\ exists (p : Phone) r',
       (edit_phone (str "1234567890") (str "1112223333") ;;
        find_phone (str "1112223333")) john_record = (Ok (Some p), r')
       /\ value p = str "1112223333".
Proof.
  split; [reflexivity |].
  exact (proj1 (edit_then_find_phone john_record (str "1234567890")
                  (str "1112223333") eq_refl)).
Defined.

(** ** String conversion of a record *)

Lemma join_snoc (sep : pystr) (l : list pystr) (x : pystr) :
  l <> [] -> join sep (l ++ [x]) = join sep l ++ sep ++ x.
Proof.
  induction l as [| a l IH]; [done |]. intros _.
  destruct l as [| b l]; [reflexivity |].
  change (a ++ sep ++ join sep ((b :: l) ++ [x])
          = (a ++ sep ++ join sep (b :: l)) ++ sep ++ x).
  rewrite IH by discriminate. by rewrite <- !app_assoc.
Qed.

Lemma join_elem (sep : pystr) (l : list pystr) (c : N) :
  c ∈ join sep l -> c ∈ sep \/ exists x, x ∈ l /\ c ∈ x.
Proof.
  induction l as [| a l IH]; [intros H; by apply elem_of_nil in H |].
  destruct l as [| b l].
  - intros H. right. exists a. split; [apply list_elem_of_here | exact H].
  - change (join sep (a :: b :: l)) with (a ++ sep ++ join sep (b :: l)).
    rewrite !elem_of_app. intros [H | [H | H]].
    + right. exists a. split; [apply list_elem_of_here | exact H].
    + by left.
    + destruct (IH H) as [Hs | (x & Hx & Hc)]; [by left |].
      right. exists x. split; [by apply list_elem_of_further | exact Hc].
Qed.

Lemma join_length_ge (sep : pystr) (n : nat) (l : list pystr) :
  l <> [] -> Forall (fun x => length x = n) l ->
  (n <= length (join sep l))%nat.
Proof.
  destruct l as [| a l]; [done |]. intros _ Hall.
  apply Forall_cons in Hall as [Ha _].
  destruct l as [| b l]; cbn [join]; [lia |].
  rewrite length_app. lia.
Qed.

(** Items of one positive length are recovered from their join. *)
Lemma join_inj (sep : pystr) (n : nat) (l1 l2 : list pystr) :
  (0 < n)%nat ->
  Forall (fun x => length x = n) l1 -> Forall (fun x => length x = n) l2 ->
  join sep l1 = join sep l2 -> l1 = l2.
Proof.
  intros Hn. revert l2.
  induction l1 as [| x l1 IH]; intros l2 H1 H2 Heq.
  - destruct l2 as [| y l2]; [reflexivity |].
    pose proof (join_length_ge sep n (y :: l2) ltac:(discriminate) H2) as Hl.
    rewrite <- Heq in Hl. cbn in Hl. lia.
  - destruct l2 as [| y l2].
    + pose proof (join_length_ge sep n (x :: l1) ltac:(discriminate) H1) as Hl.
      rewrite Heq in Hl. cbn in Hl. lia.
    + apply Forall_cons in H1 as [Hx H1]. apply Forall_cons in H2 as [Hy H2].
      destruct l1 as [| x' l1], l2 as [| y' l2].
      * cbn in Heq. by rewrite Heq.
      * pose proof (join_length_ge sep n (y' :: l2) ltac:(discriminate) H2).
        change (x = y ++ sep ++ join sep (y' :: l2)) in Heq.
        apply (f_equal length) in Heq. rewrite !length_app in Heq. lia.
      * pose proof (join_length_ge sep n (x' :: l1) ltac:(discriminate) H1).
        change (x ++ sep ++ join sep (x' :: l1) = y) in Heq.
        apply (f_equal length) in Heq. rewrite !length_app in Heq. lia.
      * change (x ++ sep ++ join sep (x' :: l1)
                = y ++ sep ++ join sep (y' :: l2)) in Heq.
        apply app_inj_1 in Heq as [-> Heq]; [| congruence].
        apply app_inv_head in Heq. f_equal. by apply IH.
Qed.

(** A string is cut in one way only at the last occurrence of [c]. *)
Lemma cut_at_last (c : N) (a a' b b' : pystr) :
  c ∉ b -> c ∉ b' -> a ++ c :: b = a' ++ c :: b' -> a = a' /\ b = b'.
Proof.
  intros Hb Hb'. revert a'.
  induction a as [| x a IH]; intros [| y a'] Heq; cbn in Heq.
  - by injection Heq as ->.
  - injection Heq as <- ->. destruct Hb.
    apply elem_of_app. right. apply list_elem_of_here.
  - injection Heq as -> <-. destruct Hb'.
    apply elem_of_app. right. apply list_elem_of_here.
  - injection Heq as -> Heq. destruct (IH _ Heq) as [-> ->]. done.
Qed.

Lemma validated_value (p : Phone) :
  validated p ->
  length (value p) = 10%nat /\ Forall (fun c => is_decimal c = true) (value p).
Proof. intros Hp. by apply fullmatch_digits_spec, validated_spec. Qed.

Lemma phones_str_no_comma (l : list Phone) :
  Forall validated l ->
  0x2c ∉ str " phones: "
         ++ join (str "; ") (map (fun p : Phone => Field_str p) l).
Proof.
  intros Hl Hin. apply elem_of_app in Hin as [Hin | Hin].
  - apply list_elem_of_In in Hin. vm_compute in Hin.
    intuition discriminate.
  - apply join_elem in Hin as [Hin | (x & Hx & Hc)].
    + apply list_elem_of_In in Hin. vm_compute in Hin.
      intuition discriminate.
    + apply list_elem_of_fmap in Hx as (p & -> & Hp).
      rewrite Forall_forall in Hl.
      destruct (validated_value p (Hl p Hp)) as [_ Hdec].
      rewrite Forall_forall in Hdec. specialize (Hdec _ Hc). discriminate.
Qed.

Lemma Phone_value_inj (l1 l2 : list Phone) :
  map (fun p : Phone => Field_str p) l1 = map (fun p : Phone => Field_str p) l2 ->
  l1 = l2.
Proof.
  revert l2. induction l1 as [| [[v]] l1 IH]; intros [| [[w]] l2] Heq;
    try discriminate; [reflexivity |].
  injection Heq as -> Heq. f_equal. by apply IH.
Qed.

(** X9. With [x] valid, the string of the record after [add_phone(x)]
    is the string before followed by [x], with ["; "] in between
    unless [x] is the first phone. *)
Theorem Record_str_add_phone (r : RecordObj) (x : pystr) :
  raises (Phone_init x) = false ->
  Record_str (snd (add_phone x r))
  = Record_str r ++ match phones r with
                    | [] => x
                    | _ :: _ => str "; " ++ x
                    end.
Proof.
  rewrite raises_Phone_init, negb_false_iff. intros Hx.
  rewrite (add_phone_ok _ _ Hx). unfold Record_str. cbn [snd name phones].
  rewrite <- !app_assoc. do 3 f_equal.
  destruct (phones r) as [| p l]; [reflexivity |].
  rewrite map_app. cbn [map]. by rewrite join_snoc.
Qed.

Lemma Record_str_add_phone_witness :
  raises (Phone_init (str "1112223333")) = false
  /\ Record_str (snd (add_phone (str "1112223333") john_record))
     = str "Contact name: John, phones: 1234567890; 5555555555; 1112223333".
Proof.
  split; [reflexivity |].
  rewrite (Record_str_add_phone john_record (str "1112223333") eq_refl).
  reflexivity.
Defined.

(** X10. The string of a record tells the record: two records whose
    phones are all validated and whose strings are equal have the same
    name and the same phones in the same order. *)
Theorem Record_str_inj (r1 r2 : RecordObj) :
  Forall validated (phones r1) -> Forall validated (phones r2) ->
  Record_str r1 = Record_str r2 -> r1 = r2.
Proof.
  intros H1 H2 Heq. unfold Record_str in Heq.
  apply app_inv_head in Heq.
  change (str ", phones: ") with (0x2c :: str " phones: ") in Heq.
  rewrite <- !app_comm_cons in Heq.
  apply cut_at_last in Heq as [Hn Hj];
    [| by apply phones_str_no_comma | by apply phones_str_no_comma].
  apply app_inv_head in Hj.
  apply (join_inj _ 10) in Hj; [| lia | |].
  - apply Phone_value_inj in Hj.
    destruct r1 as [[[n1]] l1], r2 as [[[n2]] l2]. cbn in Hn, Hj.
    by rewrite Hn, Hj.
  - apply Forall_fmap. eapply Forall_impl; [exact H1 |].
    intros p Hp. by apply validated_value.
  - apply Forall_fmap. eapply Forall_impl; [exact H2 |].
    intros p Hp. by apply validated_value.
Qed.

Lemma Record_str_inj_witness :
  Forall validated (phones john_record)
  /\ Record_str (snd (remove_phone (str "0000000000") john_record))
     = Record_str john_record
  /\ snd (remove_phone (str "0000000000") john_record) = john_record.
Proof.
  assert (H : Forall validated (phones john_record))
    by (repeat constructor).
  split; [exact H |]. split; [reflexivity |].
  exact (Record_str_inj (snd (remove_phone (str "0000000000") john_record))
           john_record H H eq_refl).
Defined.

(** ** The book and the records it refers to *)

Lemma call_eq {A : Type} (r : ref) (m : exec RecordObj A) (heap : store) :
  call r m heap = (fst (m (heap r)), store_set r (snd (m (heap r))) heap).
Proof. unfold call. by destruct (m (heap r)). Qed.

Lemma store_set_name (heap : store) (r r' : ref) (s : RecordObj) :
  name s = name (heap r) -> name (store_set r s heap r') = name (heap r').
Proof.
  intros Hs. unfold store_set. case_decide as Hr; [| reflexivity].
  by rewrite Hs, Hr.
Qed.

Lemma book_step_keys (w w' : store * gmap pystr ref) :
  book_step w w' ->
  (forall k r, snd w !! k = Some r -> value (name (fst w r)) = k) ->
  forall k r, snd w' !! k = Some r -> value (name (fst w' r)) = k.
Proof.
  intros Hstep.
  destruct Hstep as [heap data r n s Hinit Hfresh | heap data r x
    | heap data r x | heap data r old new | heap data r x | heap data r
    | heap data k0 | heap data k0]; cbn [fst snd]; intros Hw k r' Hk.
  - unfold store_set. case_decide as Hr; [| by apply Hw].
    subst r'. destruct (Hfresh k Hk).
  - rewrite call_eq. cbn [snd]. rewrite store_set_name; [by apply Hw |].
    apply (method_keeps_name (heap r) x x).
  - rewrite call_eq. cbn [snd]. rewrite store_set_name; [by apply Hw |].
    apply (method_keeps_name (heap r) x x).
  - rewrite call_eq. cbn [snd]. rewrite store_set_name; [by apply Hw |].
    apply (method_keeps_name (heap r) old new).
  - rewrite call_eq. cbn [snd]. rewrite store_set_name; [by apply Hw |].
    apply (method_keeps_name (heap r) x x).
  - change (snd (AddressBook.add_record heap r data))
      with (<[value (name (heap r)) := r]> data) in Hk.
    apply lookup_insert_Some in Hk as [[<- <-] | [_ Hk]];
      [reflexivity | by apply Hw].
  - by apply Hw.
  - apply Hw. revert Hk. unfold AddressBook.delete, bind, get, put, ret.
    case_bool_decide; cbn [snd]; [| done].
    intros Hk. by apply lookup_delete_Some in Hk as [_ Hk].
Qed.

(** X11. In every state reached from an empty book by creating
    records, calling methods on records through their references and
    calling [add_record], [find] and [delete] on the book, each key
    of the book is the name of the record it maps to; so [find(k)]
    returns a record named [k] or [None]. *)
Theorem book_keys_are_names (w : store * gmap pystr ref) (k : pystr) :
  book_reachable w ->
  (forall r, snd w !! k = Some r -> value (name (fst w r)) = k)
  /\ (fst (AddressBook.find k (snd w)) = Ok None
      \/ exists r, fst (AddressBook.find k (snd w)) = Ok (Some r)
                   /\ value (name (fst w r)) = k).
Proof.
  intros Hw.
  assert (Hkeys : forall k r, snd w !! k = Some r ->
                              value (name (fst w r)) = k).
  { induction Hw as [heap | w w' _ IH Hstep].
    - intros k' r Hk. cbn in Hk. by rewrite lookup_empty in Hk.
    - by apply (book_step_keys w w'). }
  split; [apply Hkeys |].
  unfold AddressBook.find, bind, get, ret. cbn [fst].
  destruct (snd w !! k) as [r |] eqn:Hk; [right | by left].
  exists r. split; [reflexivity | by apply Hkeys].
Qed.

Lemma book_keys_are_names_witness :
  book_reachable john_world
  /\ exists r,
       fst (AddressBook.find (str "John") (snd john_world)) = Ok (Some r)
       /\ value (name (fst john_world r)) = str "John".
Proof.
  assert (Hw : book_reachable john_world).
  { apply (book_next
             (john_heap, snd (AddressBook.add_record john_heap 1%positive ∅))).
    - apply (book_next (john_heap, ∅));
        [apply book_init | apply step_add_record].
    - apply step_add_phone. }
  split; [exact Hw |].
  destruct (proj2 (book_keys_are_names john_world (str "John") Hw))
    as [Hnone | Hsome].
  - exfalso. revert Hnone. vm_compute. discriminate.
  - exact Hsome.
Defined.

(** ** The dictionary in insertion order *)

Section OrderedDictFacts.
Context {V : Type}.
Implicit Types (d : list (pystr * V)) (k : pystr) (v : V).

Lemma od_get_lookup k d :
  OrderedDict.get k d = (list_to_map d : gmap pystr V) !! k.
Proof.
  induction d as [| [k' v'] d IH]; cbn [OrderedDict.get].
  - by rewrite list_to_map_nil, lookup_empty.
  - rewrite list_to_map_cons. case_bool_decide as Hk.
    + subst k'. by rewrite lookup_insert_eq.
    + by rewrite lookup_insert_ne.
Qed.

Lemma od_get_None k d : OrderedDict.get k d = None <-> k ∉ map fst d.
Proof.
  induction d as [| [k' v'] d IH]; cbn [OrderedDict.get map fst].
  - split; [intros _; apply not_elem_of_nil | reflexivity].
  - rewrite not_elem_of_cons. case_bool_decide as Hk.
    + split; [discriminate | intros [Hne _]; by destruct Hne].
    + rewrite IH. split; [intros H; split; [congruence | exact H] | tauto].
Qed.

Lemma od_set_to_map k v d :
  (list_to_map (OrderedDict.set k v d) : gmap pystr V)
  = <[k := v]> (list_to_map d).
Proof.
  induction d as [| [k' v'] d IH]; cbn [OrderedDict.set].
  - reflexivity.
  - case_bool_decide as Hk; rewrite !list_to_map_cons.
    + subst k'. by rewrite insert_insert_eq.
    + rewrite IH. by apply insert_insert_ne.
Qed.

Lemma od_set_new k v d :
  OrderedDict.get k d = None -> OrderedDict.set k v d = d ++ [(k, v)].
Proof.
  induction d as [| [k' v'] d IH]; cbn [OrderedDict.get OrderedDict.set];
    [reflexivity |].
  case_bool_decide as Hk; [discriminate |].
  intros Hd. by rewrite IH.
Qed.

Lemma od_set_keys k v d :
  is_Some (OrderedDict.get k d) ->
  map fst (OrderedDict.set k v d) = map fst d.
Proof.
  induction d as [| [k' v'] d IH]; cbn [OrderedDict.get OrderedDict.set].
  - intros [? [=]].
  - case_bool_decide as Hk; [reflexivity |].
    intros Hd. cbn [map fst]. by rewrite IH.
Qed.

Lemma od_set_NoDup k v d :
  NoDup (map fst d) -> NoDup (map fst (OrderedDict.set k v d)).
Proof.
  intros Hd. destruct (OrderedDict.get k d) as [v0 |] eqn:Hk.
  - rewrite od_set_keys; [exact Hd | by rewrite Hk].
  - rewrite (od_set_new _ _ _ Hk), map_app. cbn [map fst].
    apply NoDup_app. split; [exact Hd |]. split; [| apply NoDup_singleton].
    intros x Hx Hx'. apply list_elem_of_singleton in Hx'. subst x.
    by apply od_get_None in Hk.
Qed.

Lemma od_del_filter k d :
  NoDup (map fst d) ->
  OrderedDict.del k d = filter (fun kv : pystr * V => fst kv <> k) d.
Proof.
  induction d as [| [k' v'] d IH]; [reflexivity |].
  cbn [map fst OrderedDict.del]. rewrite NoDup_cons. intros [Hk' Hd].
  case_bool_decide as Hk.
  - subst k'. rewrite filter_cons_False by (intros H; by apply H).
    symmetry. apply filter_Forall_id, Forall_forall.
    intros [k1 v1] Hin Heq. cbn in Heq. subst k1. apply Hk'.
    apply list_elem_of_fmap. by exists (k, v1).
  - rewrite filter_cons_True by exact Hk. by rewrite IH.
Qed.

Lemma od_del_to_map k d :
  NoDup (map fst d) ->
  (list_to_map (OrderedDict.del k d) : gmap pystr V)
  = delete k (list_to_map d).
Proof.
  induction d as [| [k' v'] d IH]; cbn [map fst OrderedDict.del].
  - intros _. by rewrite list_to_map_nil, delete_empty.
  - rewrite NoDup_cons. intros [Hk' Hd]. rewrite list_to_map_cons.
    case_bool_decide as Hk.
    + subst k'. rewrite delete_insert_eq. symmetry. apply delete_id.
      by apply not_elem_of_list_to_map_1.
    + rewrite list_to_map_cons, IH by exact Hd.
      symmetry. by apply delete_insert_ne.
Qed.

Lemma od_del_NoDup k d :
  NoDup (map fst d) -> NoDup (map fst (OrderedDict.del k d)).
Proof.
  intros Hd. rewrite od_del_filter by exact Hd.
  eapply sublist_NoDup; [exact Hd |].
  apply (fmap_sublist fst), sublist_filter.
Qed.

End OrderedDictFacts.

Lemma od_set_in_place {V : Type} (k : pystr) (v : V) (d : list (pystr * V)) :
  is_Some (OrderedDict.get k d) ->
  exists d1 v0 d2,
    d = d1 ++ (k, v0) :: d2 /\ (k ∉ map fst d1)
    /\ OrderedDict.set k v d = d1 ++ (k, v) :: d2.
Proof.
  induction d as [| [k' v'] d IH]; cbn [OrderedDict.get OrderedDict.set].
  - intros [? [=]].
  - case_bool_decide as Hk.
    + intros _. subst k'. exists [], v', d.
      split; [reflexivity |]. split; [apply not_elem_of_nil | reflexivity].
    + intros Hd. destruct (IH Hd) as (d1 & v0 & d2 & -> & Hd1 & ->).
      exists ((k', v') :: d1), v0, d2.
      split; [reflexivity |]. split; [| reflexivity].
      cbn [map fst]. apply not_elem_of_cons. split; [congruence | exact Hd1].
Qed.

(** ** AddressBook over the dictionary in insertion order *)

(** X12. On a dictionary whose keys are distinct, [add_record], [find]
    and [delete] over the items in insertion order return what they
    return over the finite map of the same items, leave the items of
    the map they leave, and keep the keys distinct. *)
Theorem ordered_book_refines
    (heap : store) (record : ref) (k : pystr) (d : list (pystr * ref)) :
  NoDup (map fst d) ->
  (fst (OrderedBook.add_record heap record d)
     = fst (AddressBook.add_record heap record (list_to_map d))
   /\ list_to_map (snd (OrderedBook.add_record heap record d))
      = snd (AddressBook.add_record heap record (list_to_map d))
   /\ NoDup (map fst (snd (OrderedBook.add_record heap record d))))
  /\ OrderedBook.find k d = (fst (AddressBook.find k (list_to_map d)), d)
  /\ (fst (OrderedBook.delete k d)
        = fst (AddressBook.delete k (list_to_map d))
      /\ list_to_map (snd (OrderedBook.delete k d))
         = snd (AddressBook.delete k (list_to_map d))
      /\ NoDup (map fst (snd (OrderedBook.delete k d)))).
Proof.
  intros Hd. split; [| split].
  - split; [reflexivity |]. split.
    + apply od_set_to_map.
    + by apply od_set_NoDup.
  - unfold OrderedBook.find, AddressBook.find, bind, get, ret. cbn [fst].
    rewrite od_get_lookup.
    by destruct ((list_to_map d : gmap pystr ref) !! k).
  - unfold OrderedBook.delete, AddressBook.delete, bind, get, put, ret.
    rewrite od_get_lookup.
    case_bool_decide as Hk; cbn [fst snd].
    + split; [reflexivity |].
      split; [by apply od_del_to_map | by apply od_del_NoDup].
    + split; [reflexivity |]. split; [reflexivity | exact Hd].
Qed.

Lemma ordered_book_refines_witness :
  NoDup (map fst two_items)
  /\ OrderedBook.find (str "Jane") two_items
     = (fst (AddressBook.find (str "Jane") (list_to_map two_items)),
        two_items).
Proof.
  assert (Hd : NoDup (map fst two_items)).
  { apply (bool_decide_unpack _). vm_compute. exact I. }
  split; [exact Hd |].
  exact (proj1 (proj2 (ordered_book_refines john_heap 1%positive
                         (str "Jane") two_items Hd))).
Defined.

(** X13. The order of the book's entries: [add_record] of a name the
    book does not hold puts the entry last; [add_record] of a name it
    holds replaces the record where the entry stands and moves
    nothing; [delete], the keys being distinct, drops the entry and
    keeps the others in their order. *)
Theorem ordered_book_order
    (heap : store) (record : ref) (k : pystr) (d : list (pystr * ref)) :
  NoDup (map fst d) ->
  (OrderedDict.get (value (name (heap record))) d = None ->
   snd (OrderedBook.add_record heap record d)
   = d ++ [(value (name (heap record)), record)])
  /\ (is_Some (OrderedDict.get (value (name (heap record))) d) ->
      exists d1 old d2,
        d = d1 ++ (value (name (heap record)), old) :: d2
        /\ snd (OrderedBook.add_record heap record d)
           = d1 ++ (value (name (heap record)), record) :: d2)
  /\ snd (OrderedBook.delete k d)
     = filter (fun kv : pystr * ref => fst kv <> k) d.
Proof.
  intros Hd. split; [| split].
  - intros Hk. by apply od_set_new.
  - intros Hk.
    destruct (od_set_in_place _ record d Hk) as (d1 & v0 & d2 & H1 & _ & H2).
    by exists d1, v0, d2.
  - unfold OrderedBook.delete, bind, get, put, ret.
    case_bool_decide as Hk; cbn [snd].
    + by apply od_del_filter.
    + symmetry. apply filter_Forall_id, Forall_forall.
      intros [k1 v1] Hin Heq. cbn in Heq. subst k1. apply Hk.
      apply not_eq_None_Some. intros Hnone. apply od_get_None in Hnone.
      apply Hnone. apply list_elem_of_fmap. by exists (k, v1).
Qed.

Lemma ordered_book_order_witness :
  NoDup (map fst two_items)
  /\ snd (OrderedBook.delete (str "John") two_items)
     = [(str "Jane", 2%positive)].
Proof.
  assert (Hd : NoDup (map fst two_items)).
  { apply (bool_decide_unpack _). vm_compute. exact I. }
  split; [exact Hd |].
  rewrite (proj2 (proj2 (ordered_book_order john_heap 1%positive
                           (str "John") two_items Hd))).
  reflexivity.
Defined.

(** X14. The string of the book after [add_record] of a name it did
    not hold is the string before, a newline and the string of the new
    record; on an empty book it is the string of the record alone. *)
Theorem book_str_add_record
    (heap : store) (record : ref) (d : list (pystr * ref)) :
  OrderedDict.get (value (name (heap record))) d = None ->
  OrderedBook.to_str heap (snd (OrderedBook.add_record heap record d))
  = match d with
    | [] => Record_str (heap record)
    | _ :: _ => OrderedBook.to_str heap d ++ [0x0a] ++ Record_str (heap record)
    end.
Proof.
  intros Hk.
  change (snd (OrderedBook.add_record heap record d))
    with (OrderedDict.set (value (name (heap record))) record d).
  rewrite (od_set_new _ _ _ Hk). unfold OrderedBook.to_str, OrderedDict.values.
  destruct d as [| kv d]; [reflexivity |].
  rewrite !map_app. cbn [map snd]. by rewrite join_snoc.
Qed.

Lemma book_str_add_record_witness :
  OrderedDict.get (value (name (john_heap 1%positive)))
    ([] : list (pystr * ref)) = None
  /\ OrderedBook.to_str john_heap
       (snd (OrderedBook.add_record john_heap 1%positive []))
     = str "Contact name: John, phones: 1234567890; 5555555555".
Proof.
  split; [reflexivity |].
  rewrite (book_str_add_record john_heap 1%positive [] eq_refl).
  reflexivity.
Defined.

(** ** AddressBook: how the methods compose *)

Lemma book_delete_eq (k : pystr) (data : gmap pystr ref) :
  AddressBook.delete k data = (Ok tt, delete k data).
Proof.
  unfold AddressBook.delete, bind, get, put, ret.
  case_bool_decide as Hin; [reflexivity |].
  rewrite delete_id; [reflexivity | by apply eq_None_not_Some].
Qed.

Lemma book_add_record_eq (heap : store) (r : ref) (data : gmap pystr ref) :
  AddressBook.add_record heap r data
  = (Ok tt, <[value (name (heap r)) := r]> data).
Proof. reflexivity. Qed.

(** X15. On the book, [add_record] of the same record twice is
    [add_record] once; [add_record(r)] followed by [delete] of the
    name of [r] is that [delete] alone, and gives back the book as it
    was if it did not hold the name; [delete] twice is [delete]
    once. *)
Theorem book_methods_compose
    (heap : store) (record : ref) (k : pystr) (data : gmap pystr ref) :
  (AddressBook.add_record heap record ;; AddressBook.add_record heap record)
     data = AddressBook.add_record heap record data
  /\ (AddressBook.add_record heap record ;;
      AddressBook.delete (value (name (heap record)))) data
     = AddressBook.delete (value (name (heap record))) data
  /\ (data !! value (name (heap record)) = None ->
      (AddressBook.add_record heap record ;;
       AddressBook.delete (value (name (heap record)))) data = (Ok tt, data))
  /\ (AddressBook.delete k ;; AddressBook.delete k) data
     = AddressBook.delete k data.
Proof.
  rewrite !(bind_ok _ _ _ _ _ (book_add_record_eq heap record data)).
  rewrite (bind_ok _ _ _ _ _ (book_delete_eq k data)).
  rewrite !book_delete_eq, !book_add_record_eq.
  split; [by rewrite insert_insert_eq |].
  split; [by rewrite delete_insert_eq |].
  split.
  - intros Hk. by rewrite delete_insert_eq, delete_id.
  - f_equal. apply delete_id, lookup_delete_eq.
Qed.
